(** * PlanPull backend (src/app.py): groups, polls and votes

    Shallow embedding of the Flask handlers [create_group], [create_poll],
    [vote_poll] and [get_poll].  The SQL store is two finite maps keyed by
    the integer primary keys, together with the next ids SQLite hands out.
    A handler takes the store and the decoded JSON body and returns the
    new store (what [db.session.commit()] persists) and the HTTP response.
    A Python exception inside a handler is a 500 response that leaves the
    store as it was (nothing is committed). *)

From Stdlib Require Import ZArith Ascii String.
From stdpp Require Import base gmap list strings.

Local Open Scope Z_scope.

(** ** Data model *)

(** One entry of [Poll.options]: [{"text": ..., "votes": [...]}].
    [votes] is a Python list. *)
Record PollOption := mkOption { text : string; votes : list string }.

(** [class Group(db.Model)]; its [id] is the key of the store's map. *)
Record Group := mkGroup { name : string; members : list string; creator : string }.

(** [class Poll(db.Model)]; its [id] is the key of the store's map. *)
Record Poll := mkPoll { group_id : Z; question : string; options : list PollOption }.

Record DB := mkDB {
  groups : gmap Z Group;
  polls : gmap Z Poll;
  next_group_id : Z;
  next_poll_id : Z
}.

Definition empty_db : DB := mkDB ∅ ∅ 1 1.

(** JSON response bodies produced by the handlers. *)
Inductive Body :=
| Msg (m : string)                              (* {"message": m} *)
| MsgId (m : string) (key : string) (id : Z)    (* {"message": m, key: id} *)
| NotFoundMsg (what : string) (id : Z)          (* f"{what} with ID {id} not found" *)
| PollView (q : string) (opts : list PollOption)
| ServerError.                                  (* uncaught exception *)

Record Response := resp { status : Z; body : Body }.

(** Request bodies: [None] for a missing key, [Some v] for a present one.
    A handler's whole [data] is [None] for a JSON [null] body. *)
Record GroupReq := mkGroupReq {
  rq_name : option string; rq_creator : option string; rq_members : option (list string) }.
Record PollReq := mkPollReq {
  rq_group_id : option Z; rq_question : option string; rq_options : option (list string) }.
Record VoteReq := mkVoteReq { rq_user_id : option string; rq_option_index : option Z }.

(** ** [str.strip()] on ASCII text *)

(** The ASCII characters for which Python's [str.isspace()] holds:
    \t \n \x0b \x0c \r, \x1c..\x1f and the space. *)
Definition is_space (c : ascii) : bool :=
  let n := nat_of_ascii c in
  ((9 <=? n) && (n <=? 13))%nat || ((28 <=? n) && (n <=? 32))%nat.

Fixpoint lstrip (s : string) : string :=
  match s with
  | EmptyString => EmptyString
  | String c s' => if is_space c then lstrip s' else s
  end.

Fixpoint rstrip (s : string) : string :=
  match s with
  | EmptyString => EmptyString
  | String c s' =>
      match rstrip s' with
      | EmptyString => if is_space c then EmptyString else String c EmptyString
      | r => String c r
      end
  end.

Definition strip (s : string) : string := rstrip (lstrip s).

(** Every character of [s] is whitespace. *)
Fixpoint all_space (s : string) : bool :=
  match s with
  | EmptyString => true
  | String c s' => is_space c && all_space s'
  end.

(** ** Python list operations on vote lists *)

(** [x in l]. *)
Definition py_in (x : string) (l : list string) : bool := bool_decide (x ∈ l).

(** [l.remove(x)]: drops the first element equal to [x]. *)
Fixpoint py_remove (x : string) (l : list string) : list string :=
  match l with
  | [] => []
  | y :: l' => if bool_decide (y = x) then l' else y :: py_remove x l'
  end.

(** ** Handlers *)

(** [create_group], lines 38-55. *)
Definition create_group (db : DB) (data : option GroupReq) : DB * Response :=
  match data with
  | Some d =>
      match rq_name d, rq_creator d with
      | Some nm, Some cr =>
          (* members_list = data.get('members', [data['creator']]) *)
          let members_list := default [cr] (rq_members d) in
          let members_list :=
            if py_in cr members_list then members_list else members_list ++ [cr] in
          let gid := next_group_id db in
          (mkDB (<[gid := mkGroup nm members_list cr]> (groups db)) (polls db)
                (gid + 1) (next_poll_id db),
           resp 201 (MsgId "Group created" "group_id" gid))
      | _, _ => (db, resp 400 (Msg "Invalid input: 'name' and 'creator' are required"))
      end
  | None => (db, resp 400 (Msg "Invalid input: 'name' and 'creator' are required"))
  end.

(** [create_poll], lines 57-76. *)
Definition create_poll (db : DB) (data : option PollReq) : DB * Response :=
  let bad := (db, resp 400 (Msg "Invalid input: 'group_id', 'question', and 'options' are required")) in
  match data with
  | Some d =>
      match rq_group_id d, rq_question d, rq_options d with
      | Some g, Some q, Some opts =>
          match groups db !! g with
          | None => (db, resp 404 (NotFoundMsg "Group" g))
          | Some _ =>
              let options := map (fun opt => mkOption (strip opt) []) opts in
              let pid := next_poll_id db in
              (mkDB (groups db) (<[pid := mkPoll g q options]> (polls db))
                    (next_group_id db) (pid + 1),
               resp 201 (MsgId "Poll created" "poll_id" pid))
          end
      | _, _, _ => bad
      end
  | None => bad
  end.

(** Loop body of lines 102-104. *)
Definition unvote (user_id : string) (opt : PollOption) : PollOption :=
  if py_in user_id (votes opt)
  then mkOption (text opt) (py_remove user_id (votes opt))
  else opt.

(** Line 107: [options[option_index]['votes'].append(user_id)]. *)
Definition add_vote (user_id : string) (opt : PollOption) : PollOption :=
  mkOption (text opt) (votes opt ++ [user_id]).

(** Lines 101-107 on the (already range-checked) options list: the list
    the handler holds in memory after the loop and the append. *)
Definition cast (user_id : string) (option_index : Z) (options : list PollOption)
    : list PollOption :=
  alter (add_vote user_id) (Z.to_nat option_index) (map (unvote user_id) options).

(** [vote_poll], lines 78-114.

    On a valid request, lines 99-107 mutate the list loaded from the
    [PickleType] column in place, which gives [cast user_id option_index
    (options poll)] in memory.  Line 110 then assigns that same list object
    back to [poll.options].  [PickleType] is not a mutable-tracking type:
    SQLAlchemy compares the assigned value with the loaded one, which is the
    same (already mutated) object, finds them equal, and the flush at line
    112 issues no UPDATE.  Nothing of the vote reaches the table; the next
    request reloads the poll with its old options.  The store is therefore
    returned unchanged on the 200 path as on the error paths. *)
Definition vote_poll (db : DB) (poll_id : Z) (data : option VoteReq) : DB * Response :=
  match polls db !! poll_id with
  | None => (db, resp 404 (NotFoundMsg "Poll" poll_id))
  | Some poll =>
      match data with
      | None => (db, resp 500 ServerError)   (* 'user_id' in None: TypeError *)
      | Some d =>
          match rq_user_id d, rq_option_index d with
          | Some user_id, Some option_index =>
              if (0 <=? option_index) && (option_index <? Z.of_nat (length (options poll)))
              then (db, resp 200 (Msg "Vote successfully cast/updated"))
              else (db, resp 400 (Msg "Invalid option index"))
          | _, _ => (db, resp 400 (Msg "Invalid input: 'user_id' and 'option_index' are required"))
          end
      end
  end.

(** [get_poll], lines 116-124. *)
Definition get_poll (db : DB) (poll_id : Z) : Response :=
  match polls db !! poll_id with
  | None => resp 404 (NotFoundMsg "Poll" poll_id)
  | Some poll => resp 200 (PollView (question poll) (options poll))
  end.

(** A sequence of vote requests sent to one poll. *)
Fixpoint run_votes (db : DB) (poll_id : Z) (calls : list (option VoteReq)) : DB :=
  match calls with
  | [] => db
  | c :: cs => run_votes (vote_poll db poll_id c).1 poll_id cs
  end.

(** Number of occurrences of a user in a vote list / in a whole poll. *)
Fixpoint occ (u : string) (l : list string) : nat :=
  match l with
  | [] => 0
  | y :: l' => (if bool_decide (y = u) then 1 else 0) + occ u l'
  end%nat.

Definition poll_occ (u : string) (opts : list PollOption) : nat :=
  sum_list (map (fun o => occ u (votes o)) opts).

(** The options whose vote list contains [u]. *)
Definition voted_options (u : string) (opts : list PollOption) : list PollOption :=
  filter (fun o => u ∈ votes o) opts.

(** The one-vote-per-user invariant on an options list. *)
Definition one_vote (opts : list PollOption) : Prop := forall v, (poll_occ v opts <= 1)%nat.

(** Total number of entries over all the vote lists of a poll. *)
Definition total_votes (opts : list PollOption) : nat :=
  sum_list (map (fun o => length (votes o)) opts).

(** ** Requests on the store *)

(** The store-changing routes and [GET /polls/<id>], as one request type. *)
Inductive Request :=
| PostGroups (data : option GroupReq)
| PostPolls (data : option PollReq)
| PostVote (poll_id : Z) (data : option VoteReq)
| GetPoll (poll_id : Z).

Definition handle (db : DB) (rq : Request) : DB * Response :=
  match rq with
  | PostGroups data => create_group db data
  | PostPolls data => create_poll db data
  | PostVote pid data => vote_poll db pid data
  | GetPoll pid => (db, get_poll db pid)
  end.

(** A sequence of requests served one after the other. *)
Fixpoint run (db : DB) (rqs : list Request) : DB :=
  match rqs with
  | [] => db
  | rq :: rqs' => run (handle db rq).1 rqs'
  end.

(** What the handlers keep true of the store: creators are members,
    polls point at stored groups, one vote per user and poll, and no key
    at or above the next id is taken. *)
Definition store_inv (db : DB) : Prop :=
  (forall k g, groups db !! k = Some g -> creator g ∈ members g) /\
  (forall k p, polls db !! k = Some p -> is_Some (groups db !! group_id p)) /\
  (forall k p, polls db !! k = Some p -> one_vote (options p)) /\
  (forall k, next_group_id db <= k -> groups db !! k = None) /\
  (forall k, next_poll_id db <= k -> polls db !! k = None).

(** ** [get_suggestions], lines 127-178 *)

Record Suggestion := mkSuggestion { sg_name : string; sg_description : string }.

Record SuggestReq := mkSuggestReq { rq_location : option string; rq_mood : option string }.

Inductive SuggestBody :=
| SMsg (m : string)                      (* {"message": m} *)
| SList (l : list Suggestion).           (* {"suggestions": l} *)

(** The if/elif chain on [mood], lines 141-176. *)
Definition suggestions_for (location mood : string) : list Suggestion :=
  if bool_decide (mood = "Energetic") then
    [mkSuggestion "Sky Zone Trampoline Park"
       ("Jump and burn energy near " ++ location ++ "! Great for a wild time.")%string;
     mkSuggestion "Local Dance Class (Salsa/Zumba)"
       ("Find a quick drop-in class to move to the beat in " ++ location ++ ".")%string;
     mkSuggestion "Busy Downtown Food Market"
       "High energy, fast pace, and lots of unique street food vendors."]
  else if bool_decide (mood = "Relaxed") then
    [mkSuggestion "Botanical Gardens or Quiet Park"
       ("Perfect place to unwind and enjoy nature near " ++ location ++ ".")%string;
     mkSuggestion "Cozy Corner Bookstore/Cafe"
       "Grab a hot drink and enjoy some light reading or quiet conversation.";
     mkSuggestion "Meditation Center Drop-in"
       "Find a local spot for deep relaxation and calm."]
  else if bool_decide (mood = "Hungry") then
    [mkSuggestion "Famous Local Diner"
       ("Go where the locals go for the best comfort food in " ++ location ++ ".")%string;
     mkSuggestion "Taco Truck Alley/Street Food Hub"
       "An adventure for the taste buds with plenty of options.";
     mkSuggestion "All-You-Can-Eat Buffet"
       "Satisfy any craving with unlimited options!"]
  else if bool_decide (mood = "Creative") then
    [mkSuggestion "Contemporary Art Museum"
       ("Seek inspiration from abstract and modern works near " ++ location ++ ".")%string;
     mkSuggestion "DIY Pottery or Painting Studio"
       "Hands-on fun to make something unique.";
     mkSuggestion "Architecture Tour"
       "Explore the unique buildings and design of the city center."]
  else if bool_decide (mood = "Romantic") then
    [mkSuggestion "Rooftop Restaurant with a View"
       ("Dress up and enjoy a classy dinner overlooking " ++ location ++ ".")%string;
     mkSuggestion "Sunset Picnic Spot"
       "Grab a blanket and some wine for a private, scenic experience.";
     mkSuggestion "Stargazing at a Planetarium"
       "A quiet, awe-inspiring place to share a moment."]
  else
    [mkSuggestion "Local Public Library"
       "Always a good place for a quiet break.";
     mkSuggestion "Main Street Window Shopping"
       "Just wander and see what catches your eye in the main area of the city."].

Definition get_suggestions (data : option SuggestReq) : Z * SuggestBody :=
  let bad := (400, SMsg "Invalid input: 'location' and 'mood' are required") in
  match data with
  | Some d =>
      match rq_location d, rq_mood d with
      | Some location, Some mood => (200, SList (suggestions_for location mood))
      | _, _ => bad
      end
  | None => bad
  end.

(** The moods with a dedicated branch. *)
Definition known_moods : list string := ["Energetic"; "Relaxed"; "Hungry"; "Creative"; "Romantic"].

(** ** Scenario from the spec's end-to-end test *)

Definition demo_group_db : DB :=
  (create_group empty_db (Some (mkGroupReq (Some "G") (Some "u1") None))).1.

Definition demo_poll_req : PollReq :=
  mkPollReq (Some 1) (Some "Where?") (Some [" Park"; "Beach "]).

Definition demo_poll_db : DB := (create_poll demo_group_db (Some demo_poll_req)).1.

Definition vote_req (u : string) (k : Z) : option VoteReq := Some (mkVoteReq (Some u) (Some k)).

Definition e2e_db : DB :=
  let db1 := (create_group empty_db (Some (mkGroupReq (Some "G") (Some "u1") None))).1 in
  let db2 := (create_poll db1 (Some (mkPollReq (Some 1) (Some "Where?") (Some [" Park"; "Beach "])))).1 in
  (vote_poll db2 1 (Some (mkVoteReq (Some "u1") (Some 0)))).1.

(** The vote of [e2e_db] is answered 200 but not stored: [get_poll] still
    shows empty vote lists. *)
Example e2e_get :
  get_poll e2e_db 1 = resp 200 (PollView "Where?" [mkOption "Park" []; mkOption "Beach" []]).
Proof. reflexivity. Qed.

(** A run of requests mixing all the store routes. *)
Definition demo_rqs : list Request :=
  [PostGroups (Some (mkGroupReq (Some "Trip") (Some "alice") (Some ["bob"])));
   PostPolls (Some (mkPollReq (Some 1) (Some "Where?") (Some ["Park"; "Beach"])));
   PostVote 1 (vote_req "bob" 0);
   PostPolls (Some (mkPollReq (Some 7) (Some "When?") (Some ["Now"])));
   PostVote 1 (vote_req "bob" 1);
   PostVote 1 (vote_req "alice" 5);
   PostVote 1 (vote_req "alice" 1)].

Definition demo_trip : Group := mkGroup "Trip" ["bob"; "alice"] "alice".

Definition demo_where : Poll :=
  mkPoll 1 "Where?" [mkOption "Park" []; mkOption "Beach" []].

Example demo_rqs_run :
  groups (run empty_db demo_rqs) !! 1 = Some demo_trip /\
  polls (run empty_db demo_rqs) !! 1 = Some demo_where /\
  polls (run empty_db demo_rqs) !! 2 = None.
Proof. repeat split; reflexivity. Qed.

(** ** Lemmas on the list operations *)

Lemma occ_app u l1 l2 : occ u (l1 ++ l2) = (occ u l1 + occ u l2)%nat.
Proof. induction l1 as [|y l1 IH]; simpl; [done|]. rewrite IH. lia. Qed.

Lemma occ_pos u l : u ∈ l ↔ (0 < occ u l)%nat.
Proof.
  induction l as [|y l IH]; simpl.
  - split; [intros Hin; by apply not_elem_of_nil in Hin | lia].
  - rewrite elem_of_cons, IH. case_bool_decide; subst; split; intros; try lia; auto.
    destruct H0; [congruence | lia].
Qed.

Lemma occ_py_remove u x l :
  occ u (py_remove x l) = if bool_decide (u = x) then (occ u l - 1)%nat else occ u l.
Proof.
  induction l as [|y l IH]; simpl; [by case_bool_decide|].
  repeat case_bool_decide; subst; simpl; try rewrite IH; try case_bool_decide;
    try congruence; lia.
Qed.

Lemma occ_unvote v u o :
  occ v (votes (unvote u o)) =
    if bool_decide (v = u) then (occ v (votes o) - 1)%nat else occ v (votes o).
Proof.
  unfold unvote, py_in. case_bool_decide as Hin.
  - simpl. apply occ_py_remove.
  - case_bool_decide; [subst|done]. rewrite occ_pos in Hin. lia.
Qed.

Lemma text_unvote u o : text (unvote u o) = text o.
Proof. unfold unvote. by destruct (py_in _ _). Qed.

Lemma alter_cons_0 {A} (f : A -> A) x (l : list A) : alter f 0%nat (x :: l) = f x :: l.
Proof. reflexivity. Qed.

Lemma alter_cons_S {A} (f : A -> A) (i : nat) x (l : list A) :
  alter f (S i) (x :: l) = x :: alter f i l.
Proof. reflexivity. Qed.

Lemma poll_occ_cons u o opts : poll_occ u (o :: opts) = (occ u (votes o) + poll_occ u opts)%nat.
Proof. reflexivity. Qed.

Lemma poll_occ_alter v u (i : nat) (opts : list PollOption) :
  (i < length opts)%nat ->
  poll_occ v (alter (add_vote u) i opts) =
    (poll_occ v opts + if bool_decide (v = u) then 1 else 0)%nat.
Proof.
  revert i. induction opts as [|o opts IH]; intros i Hi; simpl in Hi; [lia|].
  destruct i as [|i].
  - rewrite alter_cons_0, !poll_occ_cons. simpl. rewrite occ_app. simpl.
    repeat case_bool_decide; subst; try congruence; lia.
  - rewrite alter_cons_S, !poll_occ_cons, IH by lia. lia.
Qed.

Lemma poll_occ_unvote_other v u opts :
  v <> u -> poll_occ v (map (unvote u) opts) = poll_occ v opts.
Proof.
  intros Hne. induction opts as [|o opts IH]; [done|].
  unfold poll_occ in *; simpl. rewrite IH, occ_unvote. by case_bool_decide.
Qed.

Lemma poll_occ_unvote_self u opts :
  (poll_occ u opts <= 1)%nat -> poll_occ u (map (unvote u) opts) = 0%nat.
Proof.
  induction opts as [|o opts IH]; [done|].
  unfold poll_occ in *; simpl. intros Hle. rewrite occ_unvote, IH by lia.
  case_bool_decide; [lia|congruence].
Qed.

Lemma voted_options_le u opts : (length (voted_options u opts) <= poll_occ u opts)%nat.
Proof.
  induction opts as [|o opts IH]; [simpl; lia|].
  unfold voted_options, poll_occ in *; simpl. rewrite filter_cons.
  case_decide as Hin; simpl; [rewrite occ_pos in Hin|]; lia.
Qed.

Lemma cast_one_vote u k opts :
  (0 <= k < Z.of_nat (length opts)) -> one_vote opts -> one_vote (cast u k opts).
Proof.
  intros Hk Hinv v. unfold cast.
  rewrite poll_occ_alter by (rewrite length_map; lia).
  case_bool_decide; subst.
  - rewrite poll_occ_unvote_self by apply Hinv. lia.
  - rewrite poll_occ_unvote_other by done. specialize (Hinv v). lia.
Qed.

(** ** Shape of the handlers' results *)

(** [vote_poll] leaves the store as it was, whatever the request. *)
Lemma vote_poll_store db pid data : (vote_poll db pid data).1 = db.
Proof.
  unfold vote_poll. destruct (polls db !! pid); [|done].
  destruct data as [[[u|] [k|]]|]; try done. simpl.
  by destruct (_ && _)%bool.
Qed.

(** [vote_poll] either accepts the vote (200) or answers an error. *)
Lemma vote_poll_cases db pid data db' r :
  vote_poll db pid data = (db', r) ->
  (db' = db /\ status r <> 200) \/
  (exists p u k,
     polls db !! pid = Some p /\ data = Some (mkVoteReq (Some u) (Some k)) /\
     0 <= k < Z.of_nat (length (options p)) /\
     db' = db /\
     r = resp 200 (Msg "Vote successfully cast/updated")).
Proof.
  unfold vote_poll. intros Heq.
  destruct (polls db !! pid) as [p|] eqn:Hp; [|injection Heq as <- <-; left; done].
  destruct data as [[[u|] [k|]]|]; simpl in Heq;
    try (injection Heq as <- <-; left; done).
  destruct (0 <=? k) eqn:H0, (k <? Z.of_nat (length (options p))) eqn:H1; simpl in Heq;
    try (injection Heq as <- <-; left; done).
  injection Heq as <- <-. right. exists p, u, k.
  repeat split; try done; lia.
Qed.

Lemma create_poll_cases db data db' r :
  create_poll db data = (db', r) ->
  (db' = db /\ status r <> 201) \/
  (exists g q texts gr,
     data = Some (mkPollReq (Some g) (Some q) (Some texts)) /\
     groups db !! g = Some gr /\
     db' = mkDB (groups db)
                (<[next_poll_id db := mkPoll g q (map (fun opt => mkOption (strip opt) []) texts)]>
                   (polls db))
                (next_group_id db) (next_poll_id db + 1) /\
     r = resp 201 (MsgId "Poll created" "poll_id" (next_poll_id db))).
Proof.
  unfold create_poll. intros Heq.
  destruct data as [[[g|] [q|] [texts|]]|]; simpl in Heq;
    try (injection Heq as <- <-; left; done).
  destruct (groups db !! g) as [gr|] eqn:Hg; [|injection Heq as <- <-; left; done].
  injection Heq as <- <-. right. by exists g, q, texts, gr.
Qed.

Lemma create_group_cases db data db' r :
  create_group db data = (db', r) ->
  (db' = db /\ r = resp 400 (Msg "Invalid input: 'name' and 'creator' are required") /\
   (data = None \/ exists d, data = Some d /\ (rq_name d = None \/ rq_creator d = None))) \/
  (exists nm cr ms,
     data = Some (mkGroupReq (Some nm) (Some cr) ms) /\
     db' = mkDB (<[next_group_id db :=
                     mkGroup nm (let ml := default [cr] ms in
                                 if py_in cr ml then ml else ml ++ [cr]) cr]> (groups db))
                (polls db) (next_group_id db + 1) (next_poll_id db) /\
     r = resp 201 (MsgId "Group created" "group_id" (next_group_id db))).
Proof.
  unfold create_group. intros Heq.
  destruct data as [[[nm|] [cr|] ms]|]; simpl in Heq;
    try (injection Heq as <- <-; left; repeat split; eauto; right; eexists; split; eauto;
         simpl; auto).
  injection Heq as <- <-. right. by exists nm, cr, ms.
Qed.

Lemma run_votes_store db pid calls : run_votes db pid calls = db.
Proof.
  revert db. induction calls as [|c calls IH]; intros db; simpl; [done|].
  by rewrite IH, vote_poll_store.
Qed.

(** Every poll the store holds, at a given id, keeps one vote per user
    through any sequence of vote requests. *)
Lemma run_votes_one_vote db pid calls :
  (forall p, polls db !! pid = Some p -> one_vote (options p)) ->
  forall p, polls (run_votes db pid calls) !! pid = Some p -> one_vote (options p).
Proof. by rewrite run_votes_store. Qed.

Lemma fresh_options_one_vote texts :
  one_vote (map (fun opt => mkOption (strip opt) []) texts).
Proof.
  intros v. enough (poll_occ v (map (fun opt => mkOption (strip opt) []) texts) = 0%nat) by lia.
  induction texts as [|t texts IH]; [done|].
  simpl map. rewrite poll_occ_cons. simpl. lia.
Qed.

(** Polls created by [create_poll] and then voted on keep the invariant. *)
Lemma created_poll_one_vote db0 data db1 pid calls p :
  create_poll db0 data = (db1, resp 201 (MsgId "Poll created" "poll_id" pid)) ->
  polls (run_votes db1 pid calls) !! pid = Some p ->
  one_vote (options p).
Proof.
  intros Hc. destruct (create_poll_cases _ _ _ _ Hc) as [[_ Hs]|(g & q & texts & gr & _ & _ & -> & Hr)];
    [simpl in Hs; congruence|].
  injection Hr as <-.
  apply run_votes_one_vote. simpl. rewrite lookup_insert_eq. intros p' [= <-].
  apply fresh_options_one_vote.
Qed.

Lemma occ_le_poll_occ v o opts : In o opts -> (occ v (votes o) <= poll_occ v opts)%nat.
Proof.
  induction opts as [|o' opts IH]; [done|].
  rewrite poll_occ_cons. intros [<-|Ho]; [lia|]. specialize (IH Ho). lia.
Qed.

Lemma one_vote_nodup opts : one_vote opts -> Forall (fun o => NoDup (votes o)) opts.
Proof.
  intros Hinv. apply Forall_forall. intros o Ho.
  assert (Hle : forall v, (occ v (votes o) <= 1)%nat).
  { intros v. specialize (Hinv v). apply list_elem_of_In in Ho.
    pose proof (occ_le_poll_occ v o opts Ho). lia. }
  clear Hinv Ho. induction (votes o) as [|y l IH]; constructor.
  - rewrite occ_pos. specialize (Hle y). simpl in Hle. case_bool_decide; [lia|congruence].
  - apply IH. intros v. specialize (Hle v). simpl in Hle. lia.
Qed.

(** ** A second vote by the same user *)

Lemma py_remove_nodup u l : NoDup l -> u ∉ py_remove u l.
Proof.
  induction l as [|y l IH]; simpl; intros Hnd; [apply not_elem_of_nil|].
  apply NoDup_cons in Hnd as [Hy Hnd].
  case_bool_decide; subst; [done|]. rewrite elem_of_cons. intros [->|Hin]; [done|].
  by apply IH in Hin.
Qed.

Lemma unvote_nodup u o : NoDup (votes o) -> u ∉ votes (unvote u o).
Proof.
  intros Hnd. unfold unvote, py_in. case_bool_decide as Hin; [by apply py_remove_nodup|done].
Qed.

Lemma py_remove_app_absent u l : u ∉ l -> py_remove u (l ++ [u]) = l.
Proof.
  induction l as [|y l IH]; simpl; intros Hu; [by rewrite bool_decide_eq_true_2|].
  rewrite elem_of_cons in Hu. rewrite bool_decide_eq_false_2 by naive_solver.
  rewrite IH; naive_solver.
Qed.

Lemma unvote_absent u o : u ∉ votes o -> unvote u o = o.
Proof. intros Hu. unfold unvote, py_in. by rewrite bool_decide_eq_false_2. Qed.

Lemma unvote_add_vote u o : u ∉ votes o -> unvote u (add_vote u o) = o.
Proof.
  intros Hu. unfold unvote, add_vote, py_in. simpl.
  rewrite bool_decide_eq_true_2 by (apply elem_of_app; right; apply list_elem_of_singleton; done).
  rewrite py_remove_app_absent by done. by destruct o.
Qed.

Lemma unvote_alter_add u (i : nat) (opts : list PollOption) :
  Forall (fun o => u ∉ votes o) opts ->
  map (unvote u) (alter (add_vote u) i opts) = opts.
Proof.
  revert i. induction opts as [|o opts IH]; intros i Hall; [done|].
  apply Forall_cons in Hall as [Ho Hall].
  destruct i as [|i].
  - rewrite alter_cons_0. simpl. rewrite unvote_add_vote by done. f_equal.
    clear IH Ho. induction opts as [|o' opts IH']; [done|].
    apply Forall_cons in Hall as [Ho' Hall]. simpl. rewrite unvote_absent by done.
    f_equal. by apply IH'.
  - rewrite alter_cons_S. simpl. rewrite unvote_absent by done. f_equal. by apply IH.
Qed.

Lemma unvote_all_absent u opts :
  Forall (fun o => NoDup (votes o)) opts ->
  Forall (fun o => u ∉ votes o) (map (unvote u) opts).
Proof.
  intros Hall. apply Forall_map. eapply Forall_impl; [exact Hall|].
  intros o. apply unvote_nodup.
Qed.

(** Voting twice: the second call forgets the first one entirely. *)
Lemma cast_cast u j k opts :
  Forall (fun o => NoDup (votes o)) opts ->
  cast u j (cast u k opts) = cast u j opts.
Proof.
  intros Hall. unfold cast at 2. unfold cast.
  rewrite unvote_alter_add; [done|]. by apply unvote_all_absent.
Qed.

Lemma length_cast u k opts : length (cast u k opts) = length opts.
Proof. unfold cast. by rewrite length_alter, length_map. Qed.

Lemma texts_alter_add u (i : nat) (opts : list PollOption) :
  map text (alter (add_vote u) i opts) = map text opts.
Proof.
  revert i. induction opts as [|o opts IH]; intros i; [done|].
  destruct i as [|i]; [rewrite alter_cons_0 | rewrite alter_cons_S]; simpl; by rewrite ?IH.
Qed.

Lemma texts_cast u k opts : map text (cast u k opts) = map text opts.
Proof.
  unfold cast. rewrite texts_alter_add, map_map.
  apply map_ext. apply text_unvote.
Qed.

(** ** Claims on [vote_poll] *)

(** C1. For a poll created by [create_poll] and any sequence of vote
    requests on it (successful or not), each user id appears in the vote
    list of at most one of the poll's options. *)
Theorem created_poll_single_vote db0 data db1 pid calls p u :
  create_poll db0 data = (db1, resp 201 (MsgId "Poll created" "poll_id" pid)) ->
  polls (run_votes db1 pid calls) !! pid = Some p ->
  (length (voted_options u (options p)) <= 1)%nat.
Proof.
  intros Hc Hp. pose proof (created_poll_one_vote _ _ _ _ _ _ Hc Hp) as Hinv.
  pose proof (voted_options_le u (options p)). specialize (Hinv u). lia.
Qed.

Lemma created_poll_single_vote_witness :
  create_poll demo_group_db (Some demo_poll_req)
    = (demo_poll_db, resp 201 (MsgId "Poll created" "poll_id" 1)) /\
  polls (run_votes demo_poll_db 1 [vote_req "u1" 0; vote_req "u2" 0; vote_req "u1" 1])
    !! 1 = Some (mkPoll 1 "Where?" [mkOption "Park" []; mkOption "Beach" []]) /\
  (length (voted_options "u1" [mkOption "Park" []; mkOption "Beach" []]) <= 1)%nat.
Proof.
  split; [reflexivity|]. split; [reflexivity|].
  apply (created_poll_single_vote demo_group_db (Some demo_poll_req) demo_poll_db 1
           [vote_req "u1" 0; vote_req "u2" 0; vote_req "u1" 1]
           (mkPoll 1 "Where?" [mkOption "Park" []; mkOption "Beach" []]) "u1");
    reflexivity.
Defined.

(** C2. Sending the same vote request twice in a row gives, after the
    second call, the same store and the same response as after the first
    call alone (for any request body, valid option index included). *)
Theorem vote_idempotent db pid data :
  vote_poll (vote_poll db pid data).1 pid data = vote_poll db pid data.
Proof. by rewrite vote_poll_store. Qed.

(** A valid vote request is answered 200 and the store stays as it was. *)
Lemma vote_poll_valid db pid u k p :
  polls db !! pid = Some p ->
  0 <= k < Z.of_nat (length (options p)) ->
  vote_poll db pid (vote_req u k) = (db, resp 200 (Msg "Vote successfully cast/updated")).
Proof.
  intros Hp Hk. unfold vote_poll. rewrite Hp. simpl.
  assert (Hb : ((0 <=? k) && (k <? Z.of_nat (length (options p))))%bool = true)
    by (apply andb_true_intro; split; [apply Z.leb_le | apply Z.ltb_lt]; lia).
  by rewrite Hb.
Qed.

(** What lines 101-107 compute in memory for a vote on option 0 followed
    by a vote on option 1, had the first list been stored: the user ends up
    out of option 0 and in option 1. *)
Lemma cast_move u opts :
  (2 <= length opts)%nat ->
  Forall (fun o => NoDup (votes o)) opts ->
  exists o0 o1,
    cast u 1 (cast u 0 opts) !! 0%nat = Some o0 /\ cast u 1 (cast u 0 opts) !! 1%nat = Some o1 /\
    (u ∉ votes o0) /\ (u ∈ votes o1).
Proof.
  intros Hlen Hnd. rewrite cast_cast by done.
  destruct opts as [|o0 [|o1 rest]]; simpl in Hlen; try lia.
  apply Forall_cons in Hnd as [Hnd0 Hnd]. apply Forall_cons in Hnd as [Hnd1 _].
  exists (unvote u o0), (add_vote u (unvote u o1)).
  unfold cast. change (Z.to_nat 1) with (S 0). cbn [map].
  rewrite alter_cons_S, alter_cons_0.
  repeat split; try done.
  - by apply unvote_nodup.
  - unfold add_vote. simpl. apply elem_of_app. right. by apply list_elem_of_singleton.
Qed.

(** C3. Voting for option 0 and then for option 1 of a fresh two-option
    poll: both calls answer 200, yet the stored poll afterwards does not
    list the user in option 1's votes (the list computed by lines 101-107,
    see [cast_move], is never written to the table). *)
Theorem vote_move_not_persisted :
  polls demo_poll_db !! 1 = Some (mkPoll 1 "Where?" [mkOption "Park" []; mkOption "Beach" []]) /\
  (vote_poll demo_poll_db 1 (vote_req "u1" 0)).2 = resp 200 (Msg "Vote successfully cast/updated") /\
  (vote_poll (vote_poll demo_poll_db 1 (vote_req "u1" 0)).1 1 (vote_req "u1" 1)).2
    = resp 200 (Msg "Vote successfully cast/updated") /\
  exists p2 o1,
    polls (vote_poll (vote_poll demo_poll_db 1 (vote_req "u1" 0)).1 1 (vote_req "u1" 1)).1
      !! 1 = Some p2 /\
    options p2 !! 1%nat = Some o1 /\ ("u1" ∉ votes o1).
Proof.
  split; [reflexivity|]. split; [reflexivity|]. split; [reflexivity|].
  eexists _, _. split; [reflexivity|]. split; [reflexivity|].
  simpl. apply not_elem_of_nil.
Qed.

(** C4. With an option index outside [0, len(options)), [vote_poll] on
    an existing poll answers 400 and leaves the whole store unchanged. *)
Theorem vote_bad_index db pid p uo k :
  polls db !! pid = Some p ->
  ~ (0 <= k < Z.of_nat (length (options p))) ->
  exists m, vote_poll db pid (Some (mkVoteReq uo (Some k))) = (db, resp 400 (Msg m)).
Proof.
  intros Hp Hk. unfold vote_poll. rewrite Hp. simpl.
  destruct uo as [u|]; [|eexists; reflexivity].
  destruct (0 <=? k) eqn:H0, (k <? Z.of_nat (length (options p))) eqn:H1; simpl;
    try (eexists; reflexivity).
  apply Z.leb_le in H0. apply Z.ltb_lt in H1. lia.
Qed.

Lemma vote_bad_index_witness :
  polls demo_poll_db !! 1 = Some (mkPoll 1 "Where?" [mkOption "Park" []; mkOption "Beach" []]) /\
  ~ (0 <= 2 < Z.of_nat (length [mkOption "Park" []; mkOption "Beach" []])) /\
  exists m, vote_poll demo_poll_db 1 (Some (mkVoteReq (Some "u1") (Some 2)))
              = (demo_poll_db, resp 400 (Msg m)).
Proof.
  split; [reflexivity|]. split; [simpl; lia|].
  apply (vote_bad_index demo_poll_db 1
           (mkPoll 1 "Where?" [mkOption "Park" []; mkOption "Beach" []]) (Some "u1") 2);
    [reflexivity | simpl; lia].
Defined.

(** C10. A successful [vote_poll] only replaces the voted poll's record,
    keeping its group reference, question, number of options and option
    texts; every other poll, every group and the id counters are kept. *)
Theorem vote_frame db pid data db' r :
  vote_poll db pid data = (db', r) ->
  status r = 200 ->
  exists p p',
    polls db !! pid = Some p /\ polls db' = <[pid := p']> (polls db) /\
    group_id p' = group_id p /\ question p' = question p /\
    length (options p') = length (options p) /\
    map text (options p') = map text (options p) /\
    (forall q, q <> pid -> polls db' !! q = polls db !! q) /\
    groups db' = groups db /\
    next_group_id db' = next_group_id db /\ next_poll_id db' = next_poll_id db.
Proof.
  intros Hv Hs.
  destruct (vote_poll_cases _ _ _ _ _ Hv) as [[_ Hne]|(p & u & k & Hp & _ & _ & -> & _)];
    [done|].
  exists p, p. split; [done|]. split; [by rewrite insert_id|]. by repeat split.
Qed.

Lemma vote_frame_witness :
  vote_poll demo_poll_db 1 (vote_req "u1" 0)
    = ((vote_poll demo_poll_db 1 (vote_req "u1" 0)).1,
       resp 200 (Msg "Vote successfully cast/updated")) /\
  status (resp 200 (Msg "Vote successfully cast/updated")) = 200 /\
  exists p p',
    polls demo_poll_db !! 1 = Some p /\
    polls (vote_poll demo_poll_db 1 (vote_req "u1" 0)).1 = <[1 := p']> (polls demo_poll_db) /\
    group_id p' = group_id p /\ question p' = question p /\
    length (options p') = length (options p) /\
    map text (options p') = map text (options p) /\
    (forall q, q <> 1 -> polls (vote_poll demo_poll_db 1 (vote_req "u1" 0)).1 !! q
                          = polls demo_poll_db !! q) /\
    groups (vote_poll demo_poll_db 1 (vote_req "u1" 0)).1 = groups demo_poll_db /\
    next_group_id (vote_poll demo_poll_db 1 (vote_req "u1" 0)).1 = next_group_id demo_poll_db /\
    next_poll_id (vote_poll demo_poll_db 1 (vote_req "u1" 0)).1 = next_poll_id demo_poll_db.
Proof.
  split; [reflexivity|]. split; [reflexivity|].
  apply (vote_frame demo_poll_db 1 (vote_req "u1" 0)
           (vote_poll demo_poll_db 1 (vote_req "u1" 0)).1
           (resp 200 (Msg "Vote successfully cast/updated"))); reflexivity.
Defined.

(** ** [strip] removes exactly the surrounding whitespace *)

Lemma lstrip_head s : lstrip s = EmptyString \/ exists c t, lstrip s = String c t /\ is_space c = false.
Proof.
  induction s as [|c s IH]; simpl; [by left|].
  destruct (is_space c) eqn:Hc; [done|]. right. by exists c, s.
Qed.

Lemma lstrip_split s : exists a, s = (a ++ lstrip s)%string /\ all_space a = true.
Proof.
  induction s as [|c s IH]; simpl; [by exists EmptyString|].
  destruct (is_space c) eqn:Hc.
  - destruct IH as [a [Ha Hsp]]. exists (String c a). simpl. rewrite Hc, Hsp.
    split; [|done].
    etransitivity; [apply (f_equal (String c)); exact Ha | reflexivity].
  - by exists EmptyString.
Qed.

Lemma rstrip_split s : exists b, s = (rstrip s ++ b)%string /\ all_space b = true.
Proof.
  induction s as [|c s IH]; simpl; [by exists EmptyString|].
  destruct IH as [b [Hb Hsp]].
  destruct (rstrip s) as [|c' r] eqn:Hr; simpl in Hb.
  - destruct (is_space c) eqn:Hc.
    + exists (String c b). simpl. rewrite Hc, Hsp. split; [|done].
      etransitivity; [apply (f_equal (String c)); exact Hb | reflexivity].
    + exists b. simpl. split; [|done].
      etransitivity; [apply (f_equal (String c)); exact Hb | reflexivity].
  - exists b. simpl. split; [|done].
      etransitivity; [apply (f_equal (String c)); exact Hb | reflexivity].
Qed.

Lemma rstrip_cons c t :
  rstrip (String c t) =
    match rstrip t with
    | EmptyString => if is_space c then EmptyString else String c EmptyString
    | r => String c r
    end.
Proof. reflexivity. Qed.

Lemma rstrip_idem s : rstrip (rstrip s) = rstrip s.
Proof.
  induction s as [|c s IH]; [done|].
  rewrite (rstrip_cons c s). destruct (rstrip s) as [|c' r] eqn:Hr.
  - destruct (is_space c) eqn:Hc; [done|]. rewrite rstrip_cons. simpl. by rewrite Hc.
  - rewrite rstrip_cons, IH. done.
Qed.

Lemma rstrip_head c t : rstrip (String c t) = EmptyString \/ exists t', rstrip (String c t) = String c t'.
Proof.
  simpl. destruct (rstrip t) as [|c' r].
  - destruct (is_space c); [by left | right; by eexists].
  - right. by eexists.
Qed.

(** [strip s] is [s] without a whitespace prefix and suffix, and begins
    and ends with no whitespace. *)
Lemma strip_spec s :
  (exists a b, s = (a ++ (strip s ++ b))%string /\ all_space a = true /\ all_space b = true) /\
  lstrip (strip s) = strip s /\ rstrip (strip s) = strip s.
Proof.
  unfold strip. split; [|split].
  - destruct (lstrip_split s) as [a [Ha Hsa]].
    destruct (rstrip_split (lstrip s)) as [b [Hb Hsb]].
    exists a, b. repeat split; try done. by rewrite <- Hb.
  - destruct (lstrip_head s) as [->|(c & t & -> & Hc)]; [done|].
    destruct (rstrip_head c t) as [->|[t' ->]]; [done|]. simpl. by rewrite Hc.
  - apply rstrip_idem.
Qed.

Example strip_python : strip (String "009" " Park  ") = "Park"%string.
Proof. reflexivity. Qed.

(** ** Claims on [create_poll] and [create_group] *)

(** C5. A successful [create_poll] stores a poll whose options are the
    supplied texts, in order, each passed through [strip] (see
    [strip_spec]) and with an empty vote list. *)
Theorem create_poll_options db g q texts gr db' r :
  groups db !! g = Some gr ->
  create_poll db (Some (mkPollReq (Some g) (Some q) (Some texts))) = (db', r) ->
  exists p,
    polls db' !! next_poll_id db = Some p /\
    r = resp 201 (MsgId "Poll created" "poll_id" (next_poll_id db)) /\
    length (options p) = length texts /\
    (forall (i : nat) t, texts !! i = Some t -> options p !! i = Some (mkOption (strip t) [])).
Proof.
  intros Hg Hc. unfold create_poll in Hc. simpl in Hc. rewrite Hg in Hc.
  injection Hc as <- <-. eexists. simpl. rewrite lookup_insert_eq.
  split; [done|]. split; [done|]. simpl. rewrite length_map. split; [done|].
  intros i t Ht. by rewrite list_lookup_fmap, Ht.
Qed.

Lemma create_poll_options_witness :
  groups demo_group_db !! 1 = Some (mkGroup "G" ["u1"] "u1") /\
  exists p,
    polls demo_poll_db !! next_poll_id demo_group_db = Some p /\
    resp 201 (MsgId "Poll created" "poll_id" 1)
      = resp 201 (MsgId "Poll created" "poll_id" (next_poll_id demo_group_db)) /\
    length (options p) = length [" Park"; "Beach "]%string /\
    (forall (i : nat) t, [" Park"; "Beach "]%string !! i = Some t ->
                         options p !! i = Some (mkOption (strip t) [])).
Proof.
  split; [reflexivity|].
  apply (create_poll_options demo_group_db 1 "Where?" [" Park"; "Beach "]
           (mkGroup "G" ["u1"] "u1") demo_poll_db (resp 201 (MsgId "Poll created" "poll_id" 1)));
    reflexivity.
Defined.

(** C6, as written, fails: an empty name and an empty creator are
    accepted and a group is stored. *)
Lemma create_group_empty_name_accepted :
  create_group empty_db (Some (mkGroupReq (Some "") (Some "") None))
    = (mkDB {[1 := mkGroup "" [""] ""]} ∅ 2 1, resp 201 (MsgId "Group created" "group_id" 1)).
Proof. reflexivity. Qed.

(** C6 (amended). [create_group] answers 400 and stores nothing exactly
    when the body is missing or lacks the [name] or [creator] key; when
    both keys are present, whatever their values (the empty string
    included), it answers 201 and stores a group with that name and
    creator. *)
Theorem create_group_validation db data db' r :
  create_group db data = (db', r) ->
  match data with
  | Some (mkGroupReq (Some nm) (Some cr) _) =>
      status r = 201 /\ exists mem, groups db' !! next_group_id db = Some (mkGroup nm mem cr)
  | _ => status r = 400 /\ db' = db
  end.
Proof.
  intros Hc. destruct (create_group_cases _ _ _ _ Hc)
    as [(-> & -> & Hd)|(nm & cr & ms & -> & -> & ->)].
  - destruct Hd as [->|(d & -> & [Hn|Hn])]; [done| |];
      destruct d as [[nm|] [cr|] ms]; simpl in Hn; try congruence; done.
  - split; [done|]. eexists. simpl. apply lookup_insert_eq.
Qed.

Lemma create_group_validation_witness :
  create_group empty_db (Some (mkGroupReq (Some "") (Some "") None))
    = (mkDB {[1 := mkGroup "" [""] ""]} ∅ 2 1, resp 201 (MsgId "Group created" "group_id" 1)) /\
  (status (resp 201 (MsgId "Group created" "group_id" 1)) = 201 /\
   exists mem, groups (mkDB {[1 := mkGroup "" [""] ""]} ∅ 2 1) !! next_group_id empty_db
                 = Some (mkGroup "" mem "")).
Proof.
  split; [reflexivity|].
  exact (create_group_validation empty_db (Some (mkGroupReq (Some "") (Some "") None))
           (mkDB {[1 := mkGroup "" [""] ""]} ∅ 2 1)
           (resp 201 (MsgId "Group created" "group_id" 1)) eq_refl).
Defined.

(** C7, as written, fails: an empty options list is accepted and a poll
    with no option is stored. *)
Lemma create_poll_empty_options_accepted :
  let res := create_poll demo_group_db (Some (mkPollReq (Some 1) (Some "Where?") (Some []))) in
  status res.2 = 201 /\ polls res.1 !! 1 = Some (mkPoll 1 "Where?" []).
Proof. split; reflexivity. Qed.

(** C7 (amended). [create_poll] answers 400 and stores nothing exactly
    when the body is missing or lacks one of [group_id], [question],
    [options]; with all three present it answers 404 and stores nothing
    when the group does not exist, and otherwise answers 201 and stores
    the poll, an empty options list giving a poll with zero options. *)
Theorem create_poll_validation db data db' r :
  create_poll db data = (db', r) ->
  match data with
  | Some (mkPollReq (Some g) (Some q) (Some texts)) =>
      (groups db !! g = None -> status r = 404 /\ db' = db) /\
      (is_Some (groups db !! g) ->
         status r = 201 /\
         polls db' !! next_poll_id db = Some (mkPoll g q (map (fun opt => mkOption (strip opt) []) texts)))
  | _ => status r = 400 /\ db' = db
  end.
Proof.
  unfold create_poll. intros Hc.
  destruct data as [[[g|] [q|] [texts|]]|]; simpl in Hc;
    try (injection Hc as <- <-; done).
  split.
  - intros Hg. rewrite Hg in Hc. by injection Hc as <- <-.
  - intros [gr Hg]. rewrite Hg in Hc. injection Hc as <- <-. simpl.
    split; [done|]. apply lookup_insert_eq.
Qed.

Lemma create_poll_validation_witness :
  create_poll demo_group_db (Some (mkPollReq (Some 1) (Some "Where?") (Some [])))
    = ((create_poll demo_group_db (Some (mkPollReq (Some 1) (Some "Where?") (Some [])))).1,
       resp 201 (MsgId "Poll created" "poll_id" 1)) /\
  (groups demo_group_db !! 1 = None -> status (resp 201 (MsgId "Poll created" "poll_id" 1)) = 404 /\
     (create_poll demo_group_db (Some (mkPollReq (Some 1) (Some "Where?") (Some [])))).1 = demo_group_db) /\
  (is_Some (groups demo_group_db !! 1) ->
     status (resp 201 (MsgId "Poll created" "poll_id" 1)) = 201 /\
     polls (create_poll demo_group_db (Some (mkPollReq (Some 1) (Some "Where?") (Some [])))).1
       !! next_poll_id demo_group_db
       = Some (mkPoll 1 "Where?" (map (fun opt => mkOption (strip opt) []) []))).
Proof.
  split; [reflexivity|].
  exact (create_poll_validation demo_group_db (Some (mkPollReq (Some 1) (Some "Where?") (Some [])))
           (create_poll demo_group_db (Some (mkPollReq (Some 1) (Some "Where?") (Some [])))).1
           (resp 201 (MsgId "Poll created" "poll_id" 1)) eq_refl).
Defined.

(** C8, as written, fails: a successful vote answers with a message only,
    not with the poll's options. *)
Lemma vote_response_message_only :
  (vote_poll demo_poll_db 1 (vote_req "u1" 0)).2 = resp 200 (Msg "Vote successfully cast/updated") /\
  forall q opts, body (vote_poll demo_poll_db 1 (vote_req "u1" 0)).2 <> PollView q opts.
Proof. split; [reflexivity|]. intros q opts. simpl. discriminate. Qed.

(** C8 (amended). A successful [vote_poll] answers 200 with the message
    "Vote successfully cast/updated" only; it does not return the poll's
    options. *)
Theorem vote_response_shape db pid data db' r :
  vote_poll db pid data = (db', r) ->
  status r = 200 ->
  r = resp 200 (Msg "Vote successfully cast/updated").
Proof.
  intros Hv Hs.
  destruct (vote_poll_cases _ _ _ _ _ Hv) as [[_ Hne]|(p & u & k & Hp & _ & _ & _ & ->)];
    done.
Qed.

Lemma vote_response_shape_witness :
  vote_poll demo_poll_db 1 (vote_req "u1" 0)
    = ((vote_poll demo_poll_db 1 (vote_req "u1" 0)).1,
       resp 200 (Msg "Vote successfully cast/updated")) /\
  status (resp 200 (Msg "Vote successfully cast/updated")) = 200 /\
  resp 200 (Msg "Vote successfully cast/updated") = resp 200 (Msg "Vote successfully cast/updated").
Proof.
  split; [reflexivity|]. split; [reflexivity|].
  apply (vote_response_shape demo_poll_db 1 (vote_req "u1" 0)
           (vote_poll demo_poll_db 1 (vote_req "u1" 0)).1
           (resp 200 (Msg "Vote successfully cast/updated"))); reflexivity.
Defined.

(** C9, as written, fails: a repeated id in the supplied members list is
    stored twice. *)
Lemma create_group_keeps_duplicates :
  groups (create_group empty_db (Some (mkGroupReq (Some "Trip") (Some "alice") (Some ["bob"; "bob"])))).1
    !! 1 = Some (mkGroup "Trip" ["bob"; "bob"; "alice"] "alice") /\
  ~ NoDup ["bob"; "bob"; "alice"]%string.
Proof.
  split; [reflexivity|]. intros Hnd. apply NoDup_cons in Hnd as [Hin _].
  apply Hin. apply elem_of_cons. by left.
Qed.

(** C9 (amended). [create_group] stores as members the supplied list (or
    [[creator]] when omitted), with the creator appended at the end when
    it is not already there.  As a set this is the supplied members plus
    the creator; the list is duplicate-free whenever the supplied one is,
    but repeated ids in the supplied list are kept. *)
Theorem create_group_members db nm cr ms db' r :
  create_group db (Some (mkGroupReq (Some nm) (Some cr) ms)) = (db', r) ->
  exists mem,
    groups db' !! next_group_id db = Some (mkGroup nm mem cr) /\
    mem = (if bool_decide (cr ∈ default [cr] ms) then default [cr] ms
           else default [cr] ms ++ [cr]) /\
    (forall x, x ∈ mem <-> x ∈ default [] ms \/ x = cr) /\
    (NoDup (default [] ms) -> NoDup mem).
Proof.
  intros Hc. unfold create_group in Hc. simpl in Hc. injection Hc as <- <-.
  eexists. split; [simpl; apply lookup_insert_eq|]. split; [reflexivity|].
  unfold py_in. destruct ms as [l|]; simpl.
  - case_bool_decide as Hin; split.
    + intros x. split; [by left|]. intros [Hx| ->]; done.
    + done.
    + intros x. rewrite elem_of_app, list_elem_of_singleton. done.
    + intros Hnd. apply NoDup_app. split; [done|]. split; [|apply NoDup_singleton].
      intros x Hx Hx'. apply list_elem_of_singleton in Hx'. subst. done.
  - rewrite bool_decide_eq_true_2 by (apply list_elem_of_singleton; done). split.
    + intros x. rewrite list_elem_of_singleton. split; [by right|].
      intros [Hx|Hx]; [by apply not_elem_of_nil in Hx|done].
    + intros _. apply NoDup_singleton.
Qed.

Lemma create_group_members_witness :
  create_group empty_db (Some (mkGroupReq (Some "Trip") (Some "alice") (Some ["bob"])))
    = ((create_group empty_db (Some (mkGroupReq (Some "Trip") (Some "alice") (Some ["bob"])))).1,
       resp 201 (MsgId "Group created" "group_id" 1)) /\
  exists mem,
    groups (create_group empty_db (Some (mkGroupReq (Some "Trip") (Some "alice") (Some ["bob"])))).1
      !! next_group_id empty_db = Some (mkGroup "Trip" mem "alice") /\
    mem = (if bool_decide ("alice" ∈ default ["alice"] (Some ["bob"])) then default ["alice"] (Some ["bob"])
           else default ["alice"] (Some ["bob"]) ++ ["alice"]) /\
    (forall x, x ∈ mem <-> x ∈ default [] (Some ["bob"]) \/ x = "alice"%string) /\
    (NoDup (default [] (Some ["bob"])) -> NoDup mem).
Proof.
  split; [reflexivity|].
  exact (create_group_members empty_db "Trip" "alice" (Some ["bob"])
           (create_group empty_db (Some (mkGroupReq (Some "Trip") (Some "alice") (Some ["bob"])))).1
           (resp 201 (MsgId "Group created" "group_id" 1)) eq_refl).
Defined.

(** ** The store invariant across all requests *)

Lemma store_inv_empty : store_inv empty_db.
Proof. repeat split; intros *; simpl; rewrite ?lookup_empty; done. Qed.

Lemma create_group_member cr ms :
  cr ∈ (let ml := default [cr] ms in if py_in cr ml then ml else ml ++ [cr]).
Proof.
  simpl. unfold py_in. case_bool_decide as Hin; [done|].
  apply elem_of_app. right. by apply list_elem_of_singleton.
Qed.

Lemma handle_store_inv db rq : store_inv db -> store_inv (handle db rq).1.
Proof.
  intros (Hcr & Href & Hone & Hfg & Hfp).
  destruct rq as [data|data|pid data|pid]; simpl.
  - destruct (create_group db data) as [db' r] eqn:Hc. simpl.
    destruct (create_group_cases _ _ _ _ Hc) as [(-> & _ & _)|(nm & cr & ms & _ & -> & _)];
      [repeat split; done|].
    repeat split; simpl.
    + intros k g. rewrite lookup_insert. case_decide; [intros [= <-]; apply create_group_member|].
      apply Hcr.
    + intros k p Hp. rewrite lookup_insert. case_decide; [done|]. by eapply Href.
    + done.
    + intros k Hk. rewrite lookup_insert_ne by lia. apply Hfg. lia.
    + done.
  - destruct (create_poll db data) as [db' r] eqn:Hc. simpl.
    destruct (create_poll_cases _ _ _ _ Hc)
      as [(-> & _)|(g & q & texts & gr & _ & Hg & -> & _)]; [repeat split; done|].
    repeat split; simpl.
    + done.
    + intros k p. rewrite lookup_insert. case_decide; [intros [= <-]; simpl; by eexists|].
      apply Href.
    + intros k p. rewrite lookup_insert. case_decide; [intros [= <-]; apply fresh_options_one_vote|].
      apply Hone.
    + done.
    + intros k Hk. rewrite lookup_insert_ne by lia. apply Hfp. lia.
  - rewrite vote_poll_store. repeat split; done.
  - repeat split; done.
Qed.

Lemma run_store_inv db rqs : store_inv db -> store_inv (run db rqs).
Proof.
  revert db. induction rqs as [|rq rqs IH]; intros db H; simpl; [done|].
  apply IH. by apply handle_store_inv.
Qed.

Lemma reachable_store_inv rqs : store_inv (run empty_db rqs).
Proof. apply run_store_inv, store_inv_empty. Qed.

(** X1. In every store reached from the empty one by any sequence of
    requests, each group's creator is among its members. *)
Theorem reachable_creator_member rqs k g :
  groups (run empty_db rqs) !! k = Some g -> creator g ∈ members g.
Proof. destruct (reachable_store_inv rqs) as (H & _). apply H. Qed.

Lemma reachable_creator_member_witness :
  groups (run empty_db demo_rqs) !! 1 = Some demo_trip /\ creator demo_trip ∈ members demo_trip.
Proof.
  split; [reflexivity|]. apply (reachable_creator_member demo_rqs 1 demo_trip). reflexivity.
Defined.

(** X2. In every reachable store, each poll's [group_id] names a stored
    group. *)
Theorem reachable_poll_group rqs k p :
  polls (run empty_db rqs) !! k = Some p -> is_Some (groups (run empty_db rqs) !! group_id p).
Proof. destruct (reachable_store_inv rqs) as (_ & H & _). apply H. Qed.

Lemma reachable_poll_group_witness :
  polls (run empty_db demo_rqs) !! 1 = Some demo_where /\
  is_Some (groups (run empty_db demo_rqs) !! group_id demo_where).
Proof.
  split; [reflexivity|]. apply (reachable_poll_group demo_rqs 1 demo_where). reflexivity.
Defined.

(** X3. In every reachable store, whatever requests on other polls and
    groups were interleaved, a user id appears in the vote list of at most
    one option of each poll. *)
Theorem reachable_single_vote rqs k p u :
  polls (run empty_db rqs) !! k = Some p -> (length (voted_options u (options p)) <= 1)%nat.
Proof.
  destruct (reachable_store_inv rqs) as (_ & _ & H & _). intros Hp.
  pose proof (H k p Hp u). pose proof (voted_options_le u (options p)). lia.
Qed.

Lemma reachable_single_vote_witness :
  polls (run empty_db demo_rqs) !! 1 = Some demo_where /\
  (length (voted_options "bob" (options demo_where)) <= 1)%nat.
Proof.
  split; [reflexivity|]. apply (reachable_single_vote demo_rqs 1 demo_where "bob"). reflexivity.
Defined.

Lemma handle_keeps_records db rq db' r :
  store_inv db -> handle db rq = (db', r) ->
  (forall k g, groups db !! k = Some g -> groups db' !! k = Some g) /\
  (forall k p, polls db !! k = Some p ->
     exists p', polls db' !! k = Some p' /\ group_id p' = group_id p /\
                question p' = question p /\ map text (options p') = map text (options p)).
Proof.
  intros (_ & _ & _ & Hfg & Hfp) Hh.
  assert (Hsame : db' = db ->
    (forall k g, groups db !! k = Some g -> groups db' !! k = Some g) /\
    (forall k p, polls db !! k = Some p ->
       exists p', polls db' !! k = Some p' /\ group_id p' = group_id p /\
                  question p' = question p /\ map text (options p') = map text (options p)))
    by (intros ->; split; [done|]; intros k p Hp; by exists p).
  destruct rq as [data|data|pid data|pid]; simpl in Hh.
  - destruct (create_group_cases _ _ _ _ Hh) as [(-> & _)|(nm & cr & ms & _ & -> & _)];
      [by apply Hsame|].
    split; simpl; [|intros k p Hp; by exists p].
    intros k g Hg. rewrite lookup_insert_ne; [done|].
    intros Heq. subst k. rewrite Hfg in Hg by lia. done.
  - destruct (create_poll_cases _ _ _ _ Hh) as [(-> & _)|(g & q & texts & gr & _ & _ & -> & _)];
      [by apply Hsame|].
    split; simpl; [done|].
    intros k p Hp. exists p. rewrite lookup_insert_ne; [done|].
    intros Heq. subst k. rewrite Hfp in Hp by lia. done.
  - apply Hsame. pose proof (vote_poll_store db pid data) as Hs.
    rewrite Hh in Hs. done.
  - injection Hh as <- _. by apply Hsame.
Qed.

(** X4. From a reachable store, no request deletes or replaces a group,
    and no request deletes a poll or changes its group, question or
    option texts. *)
Theorem reachable_handle_keeps_records rqs rq db' r :
  handle (run empty_db rqs) rq = (db', r) ->
  (forall k g, groups (run empty_db rqs) !! k = Some g -> groups db' !! k = Some g) /\
  (forall k p, polls (run empty_db rqs) !! k = Some p ->
     exists p', polls db' !! k = Some p' /\ group_id p' = group_id p /\
                question p' = question p /\ map text (options p') = map text (options p)).
Proof. apply handle_keeps_records, reachable_store_inv. Qed.

Lemma reachable_handle_keeps_records_witness :
  handle (run empty_db demo_rqs) (PostGroups (Some (mkGroupReq (Some "Again") (Some "carol") None)))
    = ((handle (run empty_db demo_rqs)
          (PostGroups (Some (mkGroupReq (Some "Again") (Some "carol") None)))).1,
       resp 201 (MsgId "Group created" "group_id" 2)) /\
  (forall k g, groups (run empty_db demo_rqs) !! k = Some g ->
     groups (handle (run empty_db demo_rqs)
               (PostGroups (Some (mkGroupReq (Some "Again") (Some "carol") None)))).1 !! k = Some g) /\
  (forall k p, polls (run empty_db demo_rqs) !! k = Some p ->
     exists p', polls (handle (run empty_db demo_rqs)
                        (PostGroups (Some (mkGroupReq (Some "Again") (Some "carol") None)))).1 !! k
                  = Some p' /\ group_id p' = group_id p /\
                question p' = question p /\ map text (options p') = map text (options p)).
Proof.
  split; [reflexivity|].
  apply (reachable_handle_keeps_records demo_rqs
           (PostGroups (Some (mkGroupReq (Some "Again") (Some "carol") None)))
           (handle (run empty_db demo_rqs)
              (PostGroups (Some (mkGroupReq (Some "Again") (Some "carol") None)))).1
           (resp 201 (MsgId "Group created" "group_id" 2))).
  reflexivity.
Defined.

(** ** Failed requests and what a vote changes *)

(** X5. Any request answered with an error status (400, 404 or 500)
    leaves the store exactly as it was. *)
Theorem handle_error_no_change db rq db' r :
  handle db rq = (db', r) -> 400 <= status r -> db' = db.
Proof.
  intros Hh Hs. destruct rq as [data|data|pid data|pid]; simpl in Hh.
  - destruct (create_group_cases _ _ _ _ Hh) as [(-> & _)|(_ & _ & _ & _ & _ & ->)];
      [done|simpl in Hs; lia].
  - destruct (create_poll_cases _ _ _ _ Hh) as [(-> & _)|(_ & _ & _ & _ & _ & _ & _ & ->)];
      [done|simpl in Hs; lia].
  - destruct (vote_poll_cases _ _ _ _ _ Hh) as [(-> & _)|(_ & _ & _ & _ & _ & _ & _ & ->)];
      [done|simpl in Hs; lia].
  - by injection Hh as <- _.
Qed.

Lemma handle_error_no_change_witness :
  handle demo_poll_db (PostVote 1 (vote_req "u1" 2))
    = (demo_poll_db, resp 400 (Msg "Invalid option index")) /\
  400 <= status (resp 400 (Msg "Invalid option index")) /\
  demo_poll_db = demo_poll_db.
Proof.
  split; [reflexivity|]. split; [simpl; lia|].
  apply (handle_error_no_change demo_poll_db (PostVote 1 (vote_req "u1" 2)) demo_poll_db
           (resp 400 (Msg "Invalid option index"))); [reflexivity | simpl; lia].
Defined.

(** X8. A vote by [u] never changes another user's votes: for [v <> u],
    every option holds [v] exactly as many times after the vote as
    before. *)
Theorem vote_other_users db pid u k db' r p v :
  polls db !! pid = Some p ->
  vote_poll db pid (vote_req u k) = (db', r) ->
  v <> u ->
  exists p', polls db' !! pid = Some p' /\
    length (options p') = length (options p) /\
    forall (j : nat) o o', options p !! j = Some o -> options p' !! j = Some o' ->
      occ v (votes o') = occ v (votes o).
Proof.
  intros Hp Hv Hvu.
  pose proof (vote_poll_store db pid (vote_req u k)) as Hs. rewrite Hv in Hs. simpl in Hs. subst db'.
  exists p. split; [done|]. split; [done|]. intros j o o' H1 H2. congruence.
Qed.

Lemma vote_other_users_witness :
  polls (run empty_db demo_rqs) !! 1 = Some demo_where /\
  vote_poll (run empty_db demo_rqs) 1 (vote_req "alice" 0)
    = ((vote_poll (run empty_db demo_rqs) 1 (vote_req "alice" 0)).1,
       resp 200 (Msg "Vote successfully cast/updated")) /\
  "bob"%string <> "alice"%string /\
  exists p', polls (vote_poll (run empty_db demo_rqs) 1 (vote_req "alice" 0)).1 !! 1 = Some p' /\
    length (options p') = length (options demo_where) /\
    forall (j : nat) o o', options demo_where !! j = Some o -> options p' !! j = Some o' ->
      occ "bob" (votes o') = occ "bob" (votes o).
Proof.
  split; [reflexivity|]. split; [reflexivity|]. split; [discriminate|].
  apply (vote_other_users (run empty_db demo_rqs) 1 "alice" 0
           (vote_poll (run empty_db demo_rqs) 1 (vote_req "alice" 0)).1
           (resp 200 (Msg "Vote successfully cast/updated")) demo_where "bob");
    [reflexivity | reflexivity | discriminate].
Defined.

(** X9. Round trip: after a successful [create_poll] answering with id
    [pid], [get_poll pid] returns the supplied question and the stripped
    option texts, each with an empty vote list. *)
Theorem create_then_get db g q texts db' pid :
  create_poll db (Some (mkPollReq (Some g) (Some q) (Some texts)))
    = (db', resp 201 (MsgId "Poll created" "poll_id" pid)) ->
  get_poll db' pid = resp 200 (PollView q (map (fun t => mkOption (strip t) []) texts)).
Proof.
  intros Hc.
  destruct (create_poll_cases _ _ _ _ Hc) as [[_ Hs]|(g' & q' & texts' & gr & Hd & _ & -> & Hr)];
    [simpl in Hs; congruence|].
  injection Hd as <- <- <-. injection Hr as <-.
  unfold get_poll. simpl. by rewrite lookup_insert_eq.
Qed.

Lemma create_then_get_witness :
  create_poll demo_group_db (Some demo_poll_req)
    = (demo_poll_db, resp 201 (MsgId "Poll created" "poll_id" 1)) /\
  get_poll demo_poll_db 1
    = resp 200 (PollView "Where?" (map (fun t => mkOption (strip t) []) [" Park"; "Beach "])).
Proof.
  split; [reflexivity|].
  apply (create_then_get demo_group_db 1 "Where?" [" Park"; "Beach "] demo_poll_db 1).
  reflexivity.
Defined.

(** X10. The poll lookup comes before any check of the decoded JSON body:
    a vote on a missing poll answers 404 and changes nothing, whatever that
    body holds (a JSON null included, or an object without [user_id] or
    [option_index]); [get_poll] on it answers 404 too.  A request whose
    body is not JSON at all is refused by [request.get_json()] (line 81)
    before this point and is outside the model. *)
Theorem missing_poll_not_found db pid data :
  polls db !! pid = None ->
  vote_poll db pid data = (db, resp 404 (NotFoundMsg "Poll" pid)) /\
  get_poll db pid = resp 404 (NotFoundMsg "Poll" pid).
Proof. intros Hp. unfold vote_poll, get_poll. by rewrite Hp. Qed.

Lemma missing_poll_not_found_witness :
  polls demo_poll_db !! 2 = None /\
  vote_poll demo_poll_db 2 None = (demo_poll_db, resp 404 (NotFoundMsg "Poll" 2)) /\
  get_poll demo_poll_db 2 = resp 404 (NotFoundMsg "Poll" 2).
Proof.
  split; [reflexivity|]. apply (missing_poll_not_found demo_poll_db 2 None). reflexivity.
Defined.

(** ** [get_suggestions] *)

(** Membership in a literal list. *)
Ltac in_list := repeat (first [apply list_elem_of_here | apply list_elem_of_further]).

(** X12. The location only enters the descriptions: the suggestion names
    never depend on it, and for a mood outside the five known ones the
    whole list is the same for every location. *)
Theorem suggestions_location_independent loc1 loc2 mood :
  map sg_name (suggestions_for loc1 mood) = map sg_name (suggestions_for loc2 mood) /\
  (mood ∉ known_moods -> suggestions_for loc1 mood = suggestions_for loc2 mood).
Proof.
  split.
  - unfold suggestions_for. repeat case_bool_decide; reflexivity.
  - intros Hm. unfold suggestions_for.
    rewrite !bool_decide_eq_false_2 by (intros ->; apply Hm; unfold known_moods; in_list).
    reflexivity.
Qed.

Lemma suggestions_location_independent_witness :
  ("Sleepy"%string ∉ known_moods) /\
  suggestions_for "Paris" "Sleepy" = suggestions_for "Rome" "Sleepy".
Proof.
  assert (Hm : "Sleepy"%string ∉ known_moods).
  { unfold known_moods. intros H.
    repeat (apply elem_of_cons in H as [H|H]; [discriminate|]).
    by apply not_elem_of_nil in H. }
  split; [exact Hm|]. apply (suggestions_location_independent "Paris" "Rome" "Sleepy"). exact Hm.
Defined.
